(** * TLinuxBench: the vCPU scheduling tracer and its report script

    A shallow embedding of
    - [shared/scripts/py/trace_vcpu_sched.py]: the eBPF probe text [ptext]
      (kernel side) and the coroutine [main] (user side), and
    - [shared/data/vcpu_sched/threads.py]: the analysis of the JSON files
      the tracer writes,
    together with the properties the design document states about them. *)

From Stdlib Require Import ZArith Lia List Strings.String Strings.Ascii
  Strings.Byte QArith.QArith_base.
From stdpp Require Import base option list strings gmap fin_maps pretty
  sorting list_monad.

Local Open Scope Z_scope.

(** ** Machine integers

    The probe is C: [u8], [u32] and [u64] values are integers reduced
    modulo their width.  The same reduction is what [ctypes.c_uint32] and
    [ctypes.c_uint8] do to a Python integer. *)
Module Word.

Definition u8 (x : Z) : Z := x mod 2 ^ 8.
Definition u32 (x : Z) : Z := x mod 2 ^ 32.
Definition u64 (x : Z) : Z := x mod 2 ^ 64.

#[global] Arguments u8 : simpl never.
#[global] Arguments u32 : simpl never.
#[global] Arguments u64 : simpl never.

Definition is_u32 (x : Z) : Prop := 0 <= x < 2 ^ 32.
Definition is_u64 (x : Z) : Prop := 0 <= x < 2 ^ 64.

#[global] Instance is_u32_dec x : Decision (is_u32 x).
Proof. unfold is_u32. apply _. Defined.

End Word.
Import Word.

(** ** The packed key

    [[
    static inline u64 make_key(u32 pid, u32 cpu) {
        return ((u64)pid << 32) | (u64)cpu;
    }
    ]]
    The shift is a 64-bit shift, so its result is reduced modulo 2^64. *)
Module Key.

Definition make_key (pid cpu : Z) : Z :=
  Z.lor (u64 (Z.shiftl (u64 pid) 32)) (u64 cpu).

(** User space reads keys and counts back as raw buffers of eight bytes in
    host (little-endian) order and decodes them with
    [int.from_bytes(_, "little")]. *)
Definition byte_of_Z (x : Z) : byte :=
  default x00%byte (Byte.of_N (Z.to_N (x mod 256))).

Definition Z_of_byte (b : byte) : Z := Z.of_N (Byte.to_N b).

Fixpoint to_bytes_little (n : nat) (x : Z) : list byte :=
  match n with
  | O => []
  | S n' => byte_of_Z x :: to_bytes_little n' (Z.shiftr x 8)
  end.

Fixpoint int_from_bytes_little (bs : list byte) : Z :=
  match bs with
  | [] => 0
  | b :: bs' => Z_of_byte b + 256 * int_from_bytes_little bs'
  end.

(** The buffer of a [u64] map key or value. *)
Definition u64_buffer (x : Z) : list byte := to_bytes_little 8 x.

(** Lines 85-87 of [main]:
    [[
    key_val = int.from_bytes(key, "little")
    pid = key_val >> 32
    cpu = key_val & 0xFFFFFFFF
    ]] *)
Definition unpack_val (key_val : Z) : Z * Z :=
  (Z.shiftr key_val 32, Z.land key_val 0xFFFFFFFF).

Definition unpack (key : list byte) : Z * Z :=
  unpack_val (int_from_bytes_little key).

#[global] Arguments u64_buffer : simpl never.
#[global] Arguments unpack : simpl never.
#[global] Arguments make_key : simpl never.

End Key.
Import Key.

(** ** The probe (kernel side)

    [[
    BPF_HASH(target_pids, u32, u8);
    BPF_HASH(sched_count, u64, u64);
    BPF_HASH(last_scheduled_cpu, u32, u32);
    TRACEPOINT_PROBE(sched, sched_switch) {
        u32 next_pid = args->next_pid;
        if (target_pids.lookup(&next_pid)) {
            u32 cpu = bpf_get_smp_processor_id();
            u64 key = make_key(next_pid, cpu);
            u64 zero = 0, *val;
            val = sched_count.lookup_or_init(&key, &zero);
            __sync_fetch_and_add(val, 1);
        }
        return 0;
    }
    ]]
    The three hash tables are finite maps.  [last_scheduled_cpu] is
    declared and never touched.

    In the source the increment is followed by a line that holds the single
    word [for] (line 35), and the closing brace comes next.  With that line
    the text is not C: [BPF(text=ptext)] raises when it compiles it, and no
    handler is ever installed.  [on_sched_switch] below is what lines 27-33
    and 37 say; it only runs in a world in which the load succeeds, which
    the text as shipped does not allow (see [Tracer.shipped]). *)
Module Probe.

Record maps : Type := Maps {
  target_pids : gmap Z Z;
  sched_count : gmap Z Z;
  last_scheduled_cpu : gmap Z Z
}.

(** [BPF(text=ptext)]: the tables start empty. *)
Definition load : maps := Maps ∅ ∅ ∅.

(** The tracepoint arguments the handler reads: [args->next_pid] and the
    CPU the handler runs on. *)
Record sched_switch : Type := SchedSwitch {
  next_pid : Z;
  smp_processor_id : Z
}.

(** [table.lookup_or_init(&key, &zero)]: the slot of [key], created with
    [zero] when absent. *)
Definition lookup_or_init (key zero : Z) (table : gmap Z Z) : gmap Z Z * Z :=
  match table !! key with
  | Some val => (table, val)
  | None => (<[key := zero]> table, zero)
  end.

(** [__sync_fetch_and_add(val, 1)] on a [u64] slot. *)
Definition sync_fetch_and_add (key : Z) (val delta : Z) (table : gmap Z Z)
  : gmap Z Z :=
  <[key := u64 (val + delta)]> table.

Definition on_sched_switch (st : maps) (args : sched_switch) : maps :=
  let next_pid := u32 (next_pid args) in
  match target_pids st !! next_pid with
  | Some _ =>
      let cpu := u32 (smp_processor_id args) in
      let key := make_key next_pid cpu in
      let zero := 0 in
      let '(table, val) := lookup_or_init key zero (sched_count st) in
      Maps (target_pids st) (sync_fetch_and_add key val 1 table)
           (last_scheduled_cpu st)
  | None => st
  end.

Definition run_events (st : maps) (evs : list sched_switch) : maps :=
  foldl on_sched_switch st evs.

(** User space, line 66: [target_map[c_uint32(pid)] = c_uint8(1)]. *)
Definition set_target (st : maps) (pid : Z) : maps :=
  Maps (<[u32 pid := u8 1]> (target_pids st)) (sched_count st)
       (last_scheduled_cpu st).

(** [count_map.items()] walks the hash table in an order the kernel
    chooses; [order] picks one of the permutations of the entries. *)
Definition enumerate (order : nat) (table : gmap Z Z) : list (Z * Z) :=
  default (map_to_list table) (permutations (map_to_list table) !! order).

(** The entries as user space sees them: two eight-byte buffers each. *)
Definition read_counts (order : nat) (st : maps)
  : list (list byte * list byte) :=
  (λ kv, (u64_buffer kv.1, u64_buffer kv.2)) <$> enumerate order (sched_count st).

End Probe.
Import Probe.

(** ** Python values the scripts use

    A [dict] keeps its keys in insertion order, and assigning to a key that
    is already there keeps the key's position: an association list with
    update in place. *)
Module Py.

Inductive key : Type :=
| IntKey (n : Z)
| StrKey (s : string).

Inductive exn : Type :=
| KeyError (k : key)
| IndexError
| ValueError (literal : string)
| LibraryError (origin : string).

Inductive result (A : Type) : Type :=
| Ok (a : A)
| Error (e : exn).
#[global] Arguments Ok {A} a.
#[global] Arguments Error {A} e.

Section Dict.
Context {K V : Type} `{EqDecision K}.

(** [d[k]] as an expression; [None] stands for [KeyError]. *)
Fixpoint dict_get (d : list (K * V)) (k : K) : option V :=
  match d with
  | [] => None
  | (k', v') :: d' => if decide (k' = k) then Some v' else dict_get d' k
  end.

(** [d[k] = v]. *)
Fixpoint dict_set (d : list (K * V)) (k : K) (v : V) : list (K * V) :=
  match d with
  | [] => [(k, v)]
  | (k', v') :: d' =>
      if decide (k' = k) then (k, v) :: d' else (k', v') :: dict_set d' k v
  end.

Definition dict_keys (d : list (K * V)) : list K := d.*1.
Definition dict_items (d : list (K * V)) : list (K * V) := d.
End Dict.

(** [str(n)] for an [int]. *)
Definition str (n : Z) : string := pretty n.

(** [s.split(sep)] for a one-character separator. *)
Fixpoint split_chars (sep : ascii) (cs : list ascii) (cur : list ascii)
  : list string :=
  match cs with
  | [] => [string_of_list_ascii (reverse cur)]
  | c :: cs' =>
      if decide (c = sep)
      then string_of_list_ascii (reverse cur) :: split_chars sep cs' []
      else split_chars sep cs' (c :: cur)
  end.

Definition split (s : string) (sep : ascii) : list string :=
  split_chars sep (list_ascii_of_string s) [].

(** The values [json.dump] writes and [json.load] reads here: integers and
    objects.  The members of an object keep their order. *)
#[warnings="-register-all"] Inductive json : Type :=
| JInt (n : Z)
| JObject (members : list (string * json)).

End Py.
Import Py.

(** ** The tracer (user side): [trace_vcpu_sched.py] *)
Module Tracer.

(** One entry of the reply to [query-cpus-fast].  A field the reply lacks
    is [None]; [props] may be there without a [core-id]. *)
Record cpu_info : Type := CpuInfo {
  thread_id : option Z;
  props : option (option Z)
}.

(** [{"vcpu": cpu, "scheds": {}}]. *)
Record report : Type := Report {
  vcpu : Z;
  scheds : list (Z * Z)
}.

Inductive log_msg : Type :=
| Text (s : string)
| Reply (info : list cpu_info).

(** What a run does to the world around it, in order. *)
Inductive action : Type :=
| Log (msg : log_msg)
| PathExists (path : string) (answer : bool)
| Sleep (seconds : Z)
| QmpConnect (path : string)
| ListenerEnter (names : string)
| ListenerGet
| ListenerExit
| QmpExecute (cmd : string)
| QmpDisconnect
| BpfLoad
| TargetWrite (key val : Z)
| PidfdOpen (pid : Z)
| Select
| CountItems
| OpenFile (path : string)
| JsonDump (doc : json).

(** Where a run can wait for ever. *)
Inductive suspension : Type :=
| SocketPoll
| Milestone
| ProcessExit.

Inductive outcome (A : Type) : Type :=
| Returned (a : A)
| Raised (e : exn)
| Exited (status : Z)
| Suspended (at_ : suspension).
#[global] Arguments Returned {A} a.
#[global] Arguments Raised {A} e.
#[global] Arguments Exited {A} status.
#[global] Arguments Suspended {A} at_.

(** A piece of the program: the actions it performs and how it ends. *)
Definition prog (A : Type) : Type := list action * outcome A.

#[global] Instance prog_ret : MRet prog := λ A a, ([], Returned a).

#[global] Instance prog_bind : MBind prog := λ A B f m,
  match m.2 with
  | Returned a => (m.1 ++ (f a).1, (f a).2)
  | Raised e => (m.1, Raised e)
  | Exited status => (m.1, Exited status)
  | Suspended at_ => (m.1, Suspended at_)
  end.

Definition emit (a : action) : prog unit := ([a], Returned tt).

(** A call into a library, which the world may make fail. *)
Definition call (a : action) (failure : option exn) : prog unit :=
  ([a], match failure with Some e => Raised e | None => Returned tt end).

(** An [await] that the world may never resolve. *)
Definition await (a : action) (resolves : bool) (at_ : suspension) : prog unit :=
  ([a], if resolves then Returned tt else Suspended at_).

Definition lift {A} (r : result A) : prog A :=
  ([], match r with Ok a => Returned a | Error e => Raised e end).

(** [with ctx: body]: the exit action runs when the body returns or raises. *)
Definition with_ {A} (enter exit_ : action) (body : prog A) : prog A :=
  match body.2 with
  | Returned _ | Raised _ => ([enter] ++ body.1 ++ [exit_], body.2)
  | _ => ([enter] ++ body.1, body.2)
  end.

(** [for x in xs: s = body(s, x)]. *)
Fixpoint for_each {A S} (xs : list A) (body : S → A → prog S) (s : S) : prog S :=
  match xs with
  | [] => mret s
  | x :: xs' => s' ← body s x; for_each xs' body s'
  end.

(** Everything the run gets from outside. *)
Record world : Type := World {
  (** how often [os.path.exists] answers [False] before the socket is
      there; [None]: it never appears *)
  socket_polls : option nat;
  connect_error : option exn;
  (** the failure, if any, of the n-th [qmp.execute] *)
  execute_error : nat → option exn;
  (** whether [ACPI_DEVICE_OST] ever arrives *)
  milestone_fires : bool;
  (** the reply to [query-cpus-fast] *)
  vcpus : list cpu_info;
  bpf_error : option exn;
  (** the events the probe sees after it is loaded and before the n-th
      write into [target_pids] *)
  sched_during_setup : nat → list sched_switch;
  (** the events the probe sees from the last write until the counts are
      read *)
  sched_traced : list sched_switch;
  disconnect_error : option exn;
  (** what [int(qemu_pid)] gives on line 81: the number, or [None] when
      the built-in raises [ValueError] *)
  int_qemu_pid : option Z;
  pidfd_error : option exn;
  process_exits : bool;
  (** the order in which the kernel enumerates [sched_count] *)
  table_order : nat;
  (** [time.time()], as the f-string prints it *)
  clock : string;
  open_error : option exn
}.

(** Lines 46-48.  One turn of the loop is a failed test, a log line and a
    sleep; when the socket never appears the turns go on for ever. *)
Definition poll_round (path : string) : list action :=
  [PathExists path false; Log (Text "waiting"); Sleep 1].

Definition wait_socket (path : string) (polls : option nat) : prog unit :=
  match polls with
  | Some n =>
      (mjoin (replicate n (poll_round path)) ++ [PathExists path true],
       Returned tt)
  | None => (poll_round path, Suspended SocketPoll)
  end.

(** Lines 58-60. *)
Definition thread_map_step (thread_map : list (Z * Z)) (cpu_info : cpu_info)
  : result (list (Z * Z)) :=
  match props cpu_info with
  | None => Error (KeyError (StrKey "props"))
  | Some None => Error (KeyError (StrKey "core-id"))
  | Some (Some core_id) =>
      match thread_id cpu_info with
      | None => Error (KeyError (StrKey "thread-id"))
      | Some tid => Ok (dict_set thread_map tid core_id)
      end
  end.

Fixpoint build_thread_map (info : list cpu_info) (thread_map : list (Z * Z))
  : result (list (Z * Z)) :=
  match info with
  | [] => Ok thread_map
  | cpu_info :: info' =>
      match thread_map_step thread_map cpu_info with
      | Ok thread_map' => build_thread_map info' thread_map'
      | Error e => Error e
      end
  end.

(** Lines 65-66; the probe is live, so events may come in between. *)
Definition write_target (w : world) (s : nat * maps) (pid : Z)
  : prog (nat * maps) :=
  let st := run_events s.2 (sched_during_setup w s.1) in
  emit (TargetWrite (u32 pid) (u8 1));;
  mret (S s.1, set_target st pid).

(** Lines 70-73. *)
Definition init_report (result : list (Z * report)) (item : Z * Z)
  : prog (list (Z * report)) :=
  let '(pid, cpu) := item in
  emit (Log (Text ("Received vcpu: " +:+ str cpu +:+ " pid: " +:+ str pid)));;
  mret (dict_set result pid (Report cpu [])).

(** Lines 84-89. *)
Definition drain_step (result : list (Z * report))
    (item : list byte * list byte) : Py.result (list (Z * report)) :=
  let '(key, count) := item in
  let key_val := int_from_bytes_little key in
  let pid := Z.shiftr key_val 32 in
  let cpu := Z.land key_val 0xFFFFFFFF in
  let count_val := int_from_bytes_little count in
  match dict_get result pid with
  | None => Error (KeyError (IntKey pid))
  | Some r =>
      Ok (dict_set result pid (Report (vcpu r) (dict_set (scheds r) cpu count_val)))
  end.

Fixpoint drain (items : list (list byte * list byte))
    (result : list (Z * report)) : Py.result (list (Z * report)) :=
  match items with
  | [] => Ok result
  | item :: items' =>
      match drain_step result item with
      | Ok result' => drain items' result'
      | Error e => Error e
      end
  end.

(** What [json.dump] makes of [result]: integer keys become strings. *)
Definition report_json (r : report) : json :=
  JObject [("vcpu", JInt (vcpu r));
           ("scheds", JObject ((λ kv, (str kv.1, JInt kv.2)) <$> scheds r))].

Definition result_json (result : list (Z * report)) : json :=
  JObject ((λ kv, (str kv.1, report_json kv.2)) <$> result).

(** Line 81, [int(qemu_pid)].  Which strings the built-in takes for numerals
    is the interpreter's affair; the world says how the call ends. *)
Definition int (w : world) (qemu_pid : string) : result Z :=
  match int_qemu_pid w with
  | Some pid => Ok pid
  | None => Error (ValueError qemu_pid)
  end.

(** Lines 51-54: the block that runs the guest up to the milestone.  When
    it returns it has issued [cont], waited, and issued [stop]. *)
Definition milestone_block (w : world) : prog unit :=
  with_ (ListenerEnter "ACPI_DEVICE_OST") ListenerExit
    (call (QmpExecute "cont") (execute_error w 0);;
     await ListenerGet (milestone_fires w) Milestone;;
     call (QmpExecute "stop") (execute_error w 1)).

(** Lines 42-92. *)
Definition main (w : world) (qemu_pid : string) : prog unit :=
  emit (Log (Text ("waiting qemu_pid:" +:+ qemu_pid)));;
  wait_socket ("/tmp/" +:+ qemu_pid +:+ ".socket") (socket_polls w);;
  call (QmpConnect ("/tmp/" +:+ qemu_pid +:+ ".socket")) (connect_error w);;
  milestone_block w;;
  call (QmpExecute "query-cpus-fast") (execute_error w 2);;
  let info := vcpus w in
  emit (Log (Reply info));;
  thread_map ← lift (build_thread_map info []);
  call BpfLoad (bpf_error w);;
  s ← for_each (dict_keys thread_map) (write_target w) (O, load);
  result ← for_each (dict_items thread_map) init_report [];
  let file := "/tmp/trace_vcpu_sched-" +:+ qemu_pid +:+ "-" +:+ clock w
              +:+ ".json" in
  emit (Log (Text ("Logging vcpu scheduling to " +:+ file)));;
  call (QmpExecute "cont") (execute_error w 3);;
  call QmpDisconnect (disconnect_error w);;
  pid ← lift (int w qemu_pid);
  call (PidfdOpen pid) (pidfd_error w);;
  await Select (process_exits w) ProcessExit;;
  let st := run_events s.2 (sched_traced w) in
  emit CountItems;;
  result ← lift (drain (read_counts (table_order w) st) result);
  call (OpenFile file) (open_error w);;
  emit (JsonDump (result_json result)).

(** Lines 95-99: the module body. *)
Definition script (w : world) (argv : list string) : prog unit :=
  match argv with
  | [_; qemu_pid] =>
      emit (Log (Text "helflo"));;
      main w qemu_pid
  | _ => ([], Exited 1)
  end.

(** The exit status of the process, when it ends: an uncaught exception
    ends it with status 1. *)
Definition exit_status {A} (o : outcome A) : option Z :=
  match o with
  | Returned _ => Some 0
  | Raised _ => Some 1
  | Exited status => Some status
  | Suspended _ => None
  end.

(** *** Vocabulary for the properties *)

(** [always_before x Φ t]: wherever [x] occurs in the trace [t], the
    actions performed before that occurrence satisfy [Φ]. *)
Definition always_before (x : action) (Φ : list action → Prop)
    (t : list action) : Prop :=
  ∀ pre post, t = pre ++ x :: post → Φ pre.

(** The client keeps no record of whether the guest runs; this is the
    record a caller would keep, driven by the commands issued. *)
Inductive guest : Type :=
| GuestUnknown
| GuestRunning
| GuestPaused.

Definition guest_step (g : guest) (a : action) : guest :=
  match a with
  | QmpExecute cmd =>
      if decide (cmd = "cont") then GuestRunning
      else if decide (cmd = "stop") then GuestPaused
      else g
  | _ => g
  end.

Definition guest_state (t : list action) : guest :=
  foldl guest_step GuestUnknown t.





(** The probe is attached and its filter holds every thread of the
    reply. *)
Definition probe_ready (w : world) (pre : list action) : Prop :=
  BpfLoad ∈ pre ∧
  ∀ thread_map tid,
    build_thread_map (vcpus w) [] = Ok thread_map →
    tid ∈ dict_keys thread_map →
    TargetWrite (u32 tid) (u8 1) ∈ pre.

(** What holds of the actions before a [cont]: one issued before any
    [stop] comes before the probe is loaded, one issued after a [stop]
    comes after the probe is loaded and its filter filled. *)
Definition window_rule (w : world) (pre : list action) : Prop :=
  (QmpExecute "stop" ∉ pre → BpfLoad ∉ pre)
  ∧ (QmpExecute "stop" ∈ pre → probe_ready w pre).

(** The program ends at once: nothing done, a non-zero status. *)
Definition rejected_at_start (r : prog unit) : Prop :=
  r.1 = [] ∧ ∃ status, r.2 = Exited status ∧ status ≠ 0.

(** A run to try things on: two vCPUs, the socket there at the second
    test, five events while tracing, nothing failing. *)
Definition sample_world : world := {|
  socket_polls := Some 1%nat;
  connect_error := None;
  execute_error := λ _, None;
  milestone_fires := true;
  vcpus := [CpuInfo (Some 1001) (Some (Some 0));
            CpuInfo (Some 1002) (Some (Some 1))];
  bpf_error := None;
  sched_during_setup := λ _, [];
  sched_traced := [SchedSwitch 1001 0; SchedSwitch 1001 1; SchedSwitch 1002 2;
                   SchedSwitch 5 0; SchedSwitch 1001 0];
  disconnect_error := None;
  int_qemu_pid := Some 4242;
  pidfd_error := None;
  process_exits := true;
  table_order := 0;
  clock := "1700000000.5";
  open_error := None
|}.

(** The CPU counts the drained [items] hold for thread [tid], laid over
    [scheds] in the order of the items. *)
Definition scheds_of (tid : Z) (items : list (list byte * list byte))
    (scheds : list (Z * Z)) : list (Z * Z) :=
  foldl (λ s item,
           if decide ((unpack item.1).1 = tid)
           then dict_set s (unpack item.1).2 (int_from_bytes_little item.2)
           else s) scheds items.






(** A run of the script as shipped: [ptext] does not compile (line 35), so
    [BPF(text=ptext)] on line 62 raises. *)
Definition shipped (w : world) : Prop := is_Some (bpf_error w).

Definition with_failures (w : world) (bpf : option exn) (parsed : option Z)
  : world := {|
  socket_polls := socket_polls w;
  connect_error := connect_error w;
  execute_error := execute_error w;
  milestone_fires := milestone_fires w;
  vcpus := vcpus w;
  bpf_error := bpf;
  sched_during_setup := sched_during_setup w;
  sched_traced := sched_traced w;
  disconnect_error := disconnect_error w;
  int_qemu_pid := parsed;
  pidfd_error := pidfd_error w;
  process_exits := process_exits w;
  table_order := table_order w;
  clock := clock w;
  open_error := open_error w
|}.

(** The sample run with the probe text as shipped. *)
Definition shipped_world : world :=
  with_failures sample_world
    (Some (LibraryError "BPF: failed to compile BPF module")) (Some 4242).

(** The same for an argument that [int] refuses. *)
Definition malformed_world : world :=
  with_failures sample_world
    (Some (LibraryError "BPF: failed to compile BPF module")) None.

End Tracer.
Import Tracer.

(** ** The report script: [threads.py]

    It reads the files the tracer wrote.  What it prints and plots is left
    out; the figures it derives are kept. *)
Module Analysis.

(** The object stored under one thread ID.  [.get('vcpu', 0)] and
    [.get('scheds', {})] allow either member to be missing. *)
Record thread_info : Type := ThreadInfo {
  info_vcpu : option Z;
  info_scheds : option (list (string * Z))
}.

(** One file matched by [trace_vcpu_sched-*.json]: the stem of its name
    and the object [json.load] returns. *)
Record trace_file : Type := TraceFile {
  stem : string;
  data : list (string * thread_info)
}.

Record thread_entry : Type := ThreadEntry {
  instance_id : string;
  thread_id : string;
  vcpu : Z;
  total_scheds : Z;
  scheds : list (string * Z)
}.

(** [json.load] on the shape the tracer writes. *)
Definition as_int (j : json) : option Z :=
  match j with JInt n => Some n | JObject _ => None end.

Definition as_counts (j : json) : option (list (string * Z)) :=
  match j with
  | JObject ms => mapM (λ kv, n ← as_int kv.2; Some (kv.1, n)) ms
  | JInt _ => None
  end.

Definition as_thread_info (j : json) : option thread_info :=
  match j with
  | JObject ms =>
      vcpu ← match dict_get ms "vcpu" with
             | Some v => Some <$> as_int v
             | None => Some None
             end;
      scheds ← match dict_get ms "scheds" with
               | Some s => Some <$> as_counts s
               | None => Some None
               end;
      Some (ThreadInfo vcpu scheds)
  | JInt _ => None
  end.

Definition load_json_data (j : json) : option (list (string * thread_info)) :=
  match j with
  | JObject ms => mapM (λ kv, ti ← as_thread_info kv.2; Some (kv.1, ti)) ms
  | JInt _ => None
  end.

(** Lines 36-52: the body of the loop over the threads of one file. *)
Definition analyze_thread (instance_id : string)
    (thread_data : list (string * thread_entry))
    (item : string * thread_info) : result (list (string * thread_entry)) :=
  let '(thread_id, thread_info) := item in
  let vcpu := default 0 (info_vcpu thread_info) in
  let scheds := default [] (info_scheds thread_info) in
  let thread_key := "Instance-" +:+ instance_id +:+ "-Thread-" +:+ thread_id in
  match dict_get scheds "0" with
  | None => Error (KeyError (StrKey "0"))
  | Some total_scheds =>
      Ok (dict_set thread_data thread_key
            (ThreadEntry instance_id thread_id vcpu total_scheds scheds))
  end.

Fixpoint analyze_threads (instance_id : string)
    (items : list (string * thread_info))
    (thread_data : list (string * thread_entry))
  : result (list (string * thread_entry)) :=
  match items with
  | [] => Ok thread_data
  | item :: items' =>
      match analyze_thread instance_id thread_data item with
      | Ok thread_data' => analyze_threads instance_id items' thread_data'
      | Error e => Error e
      end
  end.

(** Lines 28-54: the body of the loop over the files. *)
Definition analyze_file (thread_data : list (string * thread_entry))
    (json_file : trace_file) : result (list (string * thread_entry)) :=
  match split (stem json_file) "-" !! 1%nat with
  | None => Error IndexError
  | Some instance_id =>
      analyze_threads instance_id (dict_items (data json_file)) thread_data
  end.

Fixpoint analyze_files (json_files : list trace_file)
    (thread_data : list (string * thread_entry))
  : result (list (string * thread_entry)) :=
  match json_files with
  | [] => Ok thread_data
  | json_file :: json_files' =>
      match analyze_file thread_data json_file with
      | Ok thread_data' => analyze_files json_files' thread_data'
      | Error e => Error e
      end
  end.

(** [analyze_thread_data], given the matched files in sorted order. *)
Definition analyze_thread_data (json_files : list trace_file)
  : result (list (string * thread_entry)) :=
  analyze_files json_files [].

(** Line 150:
    [(count / total_scheds) * 100 if total_scheds > 0 else 0],
    with the exact quotient in place of the floating-point one. *)
Definition percentage (count total_scheds : Z) : Q :=
  if 0 <? total_scheds
  then Qmult (Qdiv (inject_Z count) (inject_Z total_scheds)) (inject_Z 100)
  else inject_Z 0.

(** The order of [sorted(scheds.items())]: pairs compare by key first. *)
Definition item_le (a b : string * Z) : Prop :=
  String.ltb a.1 b.1 = true ∨ (a.1 = b.1 ∧ a.2 <= b.2).

#[global] Instance item_le_dec a b : Decision (item_le a b).
Proof. unfold item_le. apply _. Defined.

(** Lines 149-151: one row per CPU of a thread. *)
Definition cpu_rows (entry : thread_entry) : list (string * Z * Q) :=
  (λ kv, (kv.1, kv.2, percentage kv.2 (total_scheds entry)))
    <$> merge_sort item_le (dict_items (scheds entry)).

(** [create_detailed_analysis]: the rows of every thread. *)
Definition create_detailed_analysis (thread_data : list (string * thread_entry))
  : list (string * list (string * Z * Q)) :=
  (λ kv, (kv.1, cpu_rows kv.2)) <$> dict_items thread_data.

End Analysis.

(** * Properties

    ** Machine integers *)
Section WordFacts.

Lemma u32_range x : is_u32 (u32 x).
Proof. unfold is_u32, u32. apply Z.mod_pos_bound. lia. Qed.

Lemma u64_range x : is_u64 (u64 x).
Proof. unfold is_u64, u64. apply Z.mod_pos_bound. lia. Qed.

Lemma u32_id x : is_u32 x -> u32 x = x.
Proof. unfold is_u32, u32. intros H. now apply Z.mod_small. Qed.

Lemma u64_id x : is_u64 x -> u64 x = x.
Proof. unfold is_u64, u64. intros H. now apply Z.mod_small. Qed.

Lemma is_u32_u64 x : is_u32 x -> is_u64 x.
Proof. unfold is_u32, is_u64. lia. Qed.

End WordFacts.

(** ** Key packing *)
Section KeyFacts.

Lemma Z_of_byte_of_Z x : Z_of_byte (byte_of_Z x) = x mod 256.
Proof.
  unfold Z_of_byte, byte_of_Z.
  assert (Hr : 0 <= x mod 256 < 256) by (apply Z.mod_pos_bound; lia).
  destruct (Byte.of_N (Z.to_N (x mod 256))) as [b|] eqn:E.
  - apply Byte.to_of_N in E. simpl. rewrite E. lia.
  - apply Byte.of_N_None_iff in E. lia.
Qed.

Lemma int_from_to_bytes n x :
  int_from_bytes_little (to_bytes_little n x) = x mod 2 ^ (8 * Z.of_nat n).
Proof.
  revert x. induction n as [|n IH]; intros x.
  - simpl. now rewrite Z.mod_1_r.
  - cbn [to_bytes_little int_from_bytes_little].
    rewrite IH, Z_of_byte_of_Z, Z.shiftr_div_pow2 by lia.
    replace (8 * Z.of_nat (S n)) with (8 + 8 * Z.of_nat n) by lia.
    rewrite Z.pow_add_r by lia.
    change (2 ^ 8) with 256.
    rewrite (Z.rem_mul_r x 256 (2 ^ (8 * Z.of_nat n))) by lia.
    reflexivity.
Qed.

Lemma u64_buffer_decode x : is_u64 x -> int_from_bytes_little (u64_buffer x) = x.
Proof.
  intros H. unfold u64_buffer. rewrite int_from_to_bytes.
  apply Z.mod_small. exact H.
Qed.

Lemma make_key_val pid cpu :
  is_u32 pid -> is_u32 cpu -> make_key pid cpu = pid * 2 ^ 32 + cpu.
Proof.
  unfold is_u32. intros Hp Hc. unfold make_key.
  rewrite (u64_id pid), (u64_id cpu) by (unfold is_u64; lia).
  rewrite Z.shiftl_mul_pow2 by lia.
  rewrite u64_id by (unfold is_u64; lia).
  rewrite <- Z.shiftl_mul_pow2 by lia.
  assert (Hland : Z.land (Z.shiftl pid 32) cpu = 0).
  { apply Z.bits_inj'. intros n Hn. rewrite Z.land_spec, Z.bits_0.
    destruct (Z.lt_ge_cases n 32).
    - rewrite Z.shiftl_spec_low by lia. reflexivity.
    - rewrite (Z.bits_above_log2 cpu n); [apply andb_false_r | lia |].
      destruct (Z.eq_dec cpu 0) as [->|]; [simpl; lia|].
      assert (Z.log2 cpu < 32) by (apply Z.log2_lt_pow2; lia). lia. }
  rewrite <- Z.lxor_lor, <- Z.add_nocarry_lxor by exact Hland.
  reflexivity.
Qed.

Lemma make_key_range pid cpu : is_u64 (make_key pid cpu).
Proof.
  unfold make_key, is_u64.
  pose proof (u64_range (Z.shiftl (u64 pid) 32)) as [H1 H2].
  pose proof (u64_range cpu) as [H3 H4].
  split.
  - apply Z.lor_nonneg. lia.
  - destruct (Z.eq_dec (Z.lor (u64 (Z.shiftl (u64 pid) 32)) (u64 cpu)) 0) as [->|Hne]; [lia|].
    apply Z.log2_lt_pow2.
    + assert (0 <= Z.lor (u64 (Z.shiftl (u64 pid) 32)) (u64 cpu))
        by (apply Z.lor_nonneg; lia). lia.
    + rewrite Z.log2_lor by lia.
      apply Z.max_lub_lt.
      * destruct (Z.eq_dec (u64 (Z.shiftl (u64 pid) 32)) 0) as [->|]; [simpl; lia|].
        apply Z.log2_lt_pow2; lia.
      * destruct (Z.eq_dec (u64 cpu) 0) as [->|]; [simpl; lia|].
        apply Z.log2_lt_pow2; lia.
Qed.

Lemma unpack_val_make_key pid cpu :
  is_u32 pid -> is_u32 cpu -> unpack_val (make_key pid cpu) = (pid, cpu).
Proof.
  intros Hp Hc. rewrite make_key_val by assumption.
  unfold is_u32 in *. unfold unpack_val. f_equal.
  - rewrite Z.shiftr_div_pow2 by lia.
    rewrite Z.div_add_l by lia. rewrite Z.div_small by lia. lia.
  - change 0xFFFFFFFF with (Z.ones 32). rewrite Z.land_ones by lia.
    rewrite Z.add_comm, Z.mod_add by lia. apply Z.mod_small. lia.
Qed.

Lemma make_key_unpack_roundtrip_aux pid cpu :
  is_u32 pid → is_u32 cpu → unpack (u64_buffer (make_key pid cpu)) = (pid, cpu).
Proof.
  intros Hp Hc. unfold unpack.
  rewrite u64_buffer_decode by apply make_key_range.
  now apply unpack_val_make_key.
Qed.

End KeyFacts.

(** C2.  Round trip of the key packing: for unsigned 32-bit [pid] and [cpu],
    the probe's [make_key pid cpu], laid out as the eight-byte buffer user
    space receives and decoded there with [int.from_bytes(_, "little")],
    [>> 32] and [& 0xFFFFFFFF], gives back exactly [(pid, cpu)]. *)
Theorem make_key_unpack_roundtrip (pid cpu : Z) :
  is_u32 pid -> is_u32 cpu ->
  unpack (u64_buffer (make_key pid cpu)) = (pid, cpu).
Proof.
  exact (make_key_unpack_roundtrip_aux pid cpu).
Qed.

Lemma make_key_unpack_roundtrip_witness :
  is_u32 1001 /\ is_u32 3 /\ unpack (u64_buffer (make_key 1001 3)) = (1001, 3).
Proof.
  split; [unfold is_u32; lia|]. split; [unfold is_u32; lia|].
  apply (make_key_unpack_roundtrip 1001 3); unfold is_u32; lia.
Defined.

(** ** The probe *)
Section ProbeFacts.

Lemma enumerate_perm order table : enumerate order table ≡ₚ map_to_list table.
Proof.
  unfold enumerate.
  destruct (permutations (map_to_list table) !! order) as [l|] eqn:E; [|done].
  simpl. symmetry. apply permutations_Permutation.
  apply list_elem_of_lookup. eauto.
Qed.


Lemma elem_of_enumerate order table key val :
  (key, val) ∈ enumerate order table ↔ table !! key = Some val.
Proof. rewrite enumerate_perm. apply elem_of_map_to_list. Qed.

Lemma make_key_inj pid cpu pid' cpu' :
  is_u32 pid → is_u32 cpu → is_u32 pid' → is_u32 cpu' →
  make_key pid cpu = make_key pid' cpu' → pid = pid' ∧ cpu = cpu'.
Proof.
  intros Hp Hc Hp' Hc' E.
  apply (f_equal unpack_val) in E.
  rewrite !unpack_val_make_key in E by assumption.
  now inversion E.
Qed.

End ProbeFacts.

(** ** Dictionaries *)
Section DictFacts.
Context {K V : Type} `{EqDecision K}.
Implicit Types (d : list (K * V)) (k : K) (v : V).

Lemma dict_get_None d k : dict_get d k = None ↔ k ∉ dict_keys d.
Proof.
  unfold dict_keys. induction d as [|[k' v'] d IH]; simpl.
  - split; [intros _; apply not_elem_of_nil | done].
  - rewrite not_elem_of_cons. destruct (decide (k' = k)) as [->|Hne].
    + split; [done | intros [? _]; done].
    + rewrite IH. split; [intros ?; split; [congruence | done] | tauto].
Qed.

Lemma dict_get_is_Some d k : is_Some (dict_get d k) ↔ k ∈ dict_keys d.
Proof.
  destruct (dict_get d k) eqn:E.
  - split; [intros _ | eauto].
    destruct (decide (k ∈ dict_keys d)) as [|Hn]; [done|].
    apply dict_get_None in Hn. congruence.
  - split; [intros [? ?]; done|]. intros Hin.
    apply dict_get_None in E. done.
Qed.

Lemma dict_get_elem_of d k v : dict_get d k = Some v → (k, v) ∈ d.
Proof.
  induction d as [|[k' v'] d IH]; simpl; [done|].
  destruct (decide (k' = k)) as [->|Hne].
  - intros [= ->]. apply list_elem_of_here.
  - intros Hget. apply list_elem_of_further. now apply IH.
Qed.

Lemma dict_get_set_eq d k v : dict_get (dict_set d k v) k = Some v.
Proof.
  induction d as [|[k' v'] d IH]; simpl.
  - now rewrite decide_True.
  - destruct (decide (k' = k)) as [->|Hne]; simpl.
    + now rewrite decide_True.
    + now rewrite decide_False.
Qed.

Lemma dict_get_set_ne d k k' v :
  k ≠ k' → dict_get (dict_set d k v) k' = dict_get d k'.
Proof.
  intros Hne. induction d as [|[k0 v0] d IH]; simpl.
  - now rewrite decide_False.
  - destruct (decide (k0 = k)) as [->|Hne0]; simpl.
    + now rewrite !decide_False.
    + destruct (decide (k0 = k')); [done | exact IH].
Qed.

Lemma dict_keys_set_present d k v :
  k ∈ dict_keys d → dict_keys (dict_set d k v) = dict_keys d.
Proof.
  unfold dict_keys. induction d as [|[k' v'] d IH]; simpl.
  - intros Hin. now apply elem_of_nil in Hin.
  - intros Hin. destruct (decide (k' = k)) as [->|Hne]; simpl; [done|].
    f_equal. apply IH. apply elem_of_cons in Hin as [?|?]; [congruence|done].
Qed.



End DictFacts.

(** ** Programs and their traces *)
Section ProgFacts.

Lemma bind_trace {A B} (m : prog A) (f : A → prog B) :
  (m ≫= f).1 = m.1 ++ match m.2 with Returned a => (f a).1 | _ => [] end.
Proof.
  unfold mbind, prog_bind.
  destruct m as [t [a|e|s|p]]; simpl; now rewrite ?app_nil_r.
Qed.

Lemma bind_outcome {A B} (m : prog A) (f : A → prog B) :
  (m ≫= f).2 = match m.2 with
               | Returned a => (f a).2
               | Raised e => Raised e
               | Exited s => Exited s
               | Suspended p => Suspended p
               end.
Proof. unfold mbind, prog_bind. now destruct m as [t [a|e|s|p]]. Qed.


Lemma bind_returns_inv {A B} (m : prog A) (f : A → prog B) b :
  (m ≫= f).2 = Returned b → ∃ a, m.2 = Returned a ∧ (f a).2 = Returned b.
Proof. rewrite bind_outcome. destruct (m.2); try done. eauto. Qed.


(** *** Reasoning about what precedes an action *)

Lemma always_before_nil x Φ : always_before x Φ [].
Proof. intros pre post E. now destruct pre. Qed.

Lemma always_before_absent x Φ t : x ∉ t → always_before x Φ t.
Proof.
  intros Hout pre post ->. exfalso. apply Hout.
  apply elem_of_app. right. apply list_elem_of_here.
Qed.

Lemma always_before_app x Φ t1 t2 :
  always_before x Φ t1 →
  always_before x (λ pre, Φ (t1 ++ pre)) t2 →
  always_before x Φ (t1 ++ t2).
Proof.
  intros H1 H2 pre post E.
  revert pre Φ H1 H2 E. induction t1 as [|a t1 IH]; intros pre Φ H1 H2 E.
  - apply (H2 pre post E).
  - destruct pre as [|b pre]; simpl in E.
    + injection E as E1 E2. subst a. apply (H1 [] t1 eq_refl).
    + injection E as Eb E. subst b.
      apply (IH pre (λ pre, Φ (a :: pre))); [| exact H2 | exact E].
      intros pre' post' E'. apply (H1 (a :: pre') post'). now rewrite E'.
Qed.

Lemma always_before_cons x Φ a t :
  (a = x → Φ []) →
  always_before x (λ pre, Φ (a :: pre)) t →
  always_before x Φ (a :: t).
Proof.
  intros Ha Ht. apply (always_before_app x Φ [a] t); [|exact Ht].
  intros pre post E. destruct pre as [|b pre].
  - injection E as ->. now apply Ha.
  - injection E as _ E. now destruct pre.
Qed.

Lemma always_before_prefix x Φ t1 t2 :
  always_before x Φ (t1 ++ t2) → always_before x Φ t1.
Proof.
  intros H pre post ->. apply (H pre (post ++ t2)).
  now rewrite <- app_assoc.
Qed.

Lemma always_before_impl x (Φ Ψ : list action → Prop) t :
  (∀ pre, Φ pre → Ψ pre) → always_before x Φ t → always_before x Ψ t.
Proof. intros HΦ H pre post E. apply HΦ, (H pre post E). Qed.

Lemma always_before_bind {A B} x Φ (m : prog A) (f : A → prog B) :
  always_before x Φ m.1 →
  (∀ a, m.2 = Returned a → always_before x (λ pre, Φ (m.1 ++ pre)) (f a).1) →
  always_before x Φ (m ≫= f).1.
Proof.
  intros Hm Hf. rewrite bind_trace. apply always_before_app; [done|].
  destruct (m.2) as [a| | |]; try apply always_before_nil. now apply Hf.
Qed.

Lemma guest_state_app t1 t2 :
  guest_state (t1 ++ t2) = foldl guest_step (guest_state t1) t2.
Proof. unfold guest_state. apply foldl_app. Qed.

End ProgFacts.

(** ** The order of the actions of a run *)
Section TraceFacts.

Lemma absent_bind {A B} x (m : prog A) (f : A → prog B) :
  x ∉ m.1 → (∀ a, m.2 = Returned a → x ∉ (f a).1) → x ∉ (m ≫= f).1.
Proof.
  intros Hm Hf. rewrite bind_trace, elem_of_app. intros [?|Hin]; [done|].
  destruct (m.2) as [a| | |]; try (now apply elem_of_nil in Hin).
  now apply (Hf a).
Qed.

Lemma absent_for_each {A S} x (xs : list A) (body : S → A → prog S) s :
  (∀ s a, x ∉ (body s a).1) → x ∉ (for_each xs body s).1.
Proof.
  intros Hbody. revert s. induction xs as [|a xs IH]; intros s.
  - apply not_elem_of_nil.
  - cbn [for_each]. apply absent_bind; [apply Hbody|]. intros s' _. apply IH.
Qed.

Lemma wait_socket_actions path polls a :
  a ∈ (wait_socket path polls).1 →
  (∃ b, a = PathExists path b) ∨ a = Log (Text "waiting") ∨ a = Sleep 1.
Proof.
  assert (Hround : a ∈ poll_round path →
    (∃ b, a = PathExists path b) ∨ a = Log (Text "waiting") ∨ a = Sleep 1).
  { unfold poll_round. rewrite !elem_of_cons, elem_of_nil.
    intros [->|[->|[->|[]]]]; eauto. }
  destruct polls as [n|]; simpl; [|exact Hround].
  rewrite elem_of_app, list_elem_of_singleton. intros [Hin| ->]; [|eauto].
  induction n as [|n IH]; simpl in Hin; [now apply elem_of_nil in Hin|].
  rewrite !elem_of_cons in Hin. destruct Hin as [->|[->|[->|Hin]]]; eauto.
Qed.

Lemma wait_socket_absent path polls x :
  (∀ b, x ≠ PathExists path b) → x ≠ Log (Text "waiting") → x ≠ Sleep 1 →
  x ∉ (wait_socket path polls).1.
Proof.
  intros H1 H2 H3 Hin.
  apply wait_socket_actions in Hin as [[b ->]|[->| ->]]; [now apply (H1 b)|done..].
Qed.

(** The trace of a [with] block is the start of the trace of a block that
    got to its end. *)
Lemma with_trace {A} enter exit_ (body : prog A) :
  ∃ rest, [enter] ++ body.1 ++ [exit_] = (with_ enter exit_ body).1 ++ rest.
Proof.
  unfold with_. destruct (body.2); simpl.
  - exists []. now rewrite app_nil_r.
  - exists []. now rewrite app_nil_r.
  - by exists [exit_].
  - by exists [exit_].
Qed.

Lemma always_before_with {A} x Φ enter exit_ (body : prog A) :
  always_before x Φ ([enter] ++ body.1 ++ [exit_]) →
  always_before x Φ (with_ enter exit_ body).1.
Proof.
  intros H. destruct (with_trace enter exit_ body) as [rest E].
  rewrite E in H. now apply always_before_prefix in H.
Qed.

Lemma milestone_block_returned w a :
  (milestone_block w).2 = Returned a →
  (milestone_block w).1
  = [ListenerEnter "ACPI_DEVICE_OST"; QmpExecute "cont"; ListenerGet;
     QmpExecute "stop"; ListenerExit].
Proof.
  unfold milestone_block, with_, call, await.
  destruct (execute_error w 0); [done|].
  destruct (milestone_fires w); [|done].
  destruct (execute_error w 1); [done|]. done.
Qed.

Lemma milestone_block_absent w x :
  x ∉ [ListenerEnter "ACPI_DEVICE_OST"; QmpExecute "cont"; ListenerGet;
       QmpExecute "stop"; ListenerExit] →
  x ∉ (milestone_block w).1.
Proof.
  intros Hout Hin. apply Hout. revert Hin.
  unfold milestone_block, with_, call, await.
  destruct (execute_error w 0);
    [simpl; rewrite !elem_of_cons, !elem_of_nil; tauto|].
  destruct (milestone_fires w);
    [|simpl; rewrite !elem_of_cons, !elem_of_nil; tauto].
  destruct (execute_error w 1);
    simpl; rewrite !elem_of_cons, !elem_of_nil; tauto.
Qed.

Lemma guest_paused_after_block t :
  guest_state
    (t ++ [ListenerEnter "ACPI_DEVICE_OST"; QmpExecute "cont"; ListenerGet;
           QmpExecute "stop"; ListenerExit]) = GuestPaused.
Proof. rewrite guest_state_app. reflexivity. Qed.

Lemma write_target_trace w s pid :
  (write_target w s pid).1 = [TargetWrite (u32 pid) (u8 1)].
Proof. reflexivity. Qed.

Lemma init_report_trace result item :
  (init_report result item).1
  = [Log (Text ("Received vcpu: " +:+ str item.2 +:+ " pid: " +:+ str item.1))].
Proof. now destruct item. Qed.

Lemma emit_trace a : (emit a).1 = [a].
Proof. reflexivity. Qed.

Lemma call_trace a failure : (call a failure).1 = [a].
Proof. reflexivity. Qed.

Lemma await_trace a resolves p : (await a resolves p).1 = [a].
Proof. reflexivity. Qed.

Lemma lift_trace {A} (r : result A) : (lift r).1 = [].
Proof. reflexivity. Qed.

Lemma lift_returned {A} (r : result A) a : (lift r).2 = Returned a → r = Ok a.
Proof. destruct r; simpl; congruence. Qed.

Lemma call_returned a failure u : (call a failure).2 = Returned u → failure = None.
Proof. now destruct failure. Qed.

Lemma write_targets_trace w pids s :
  (for_each pids (write_target w) s).1
  = (λ pid, TargetWrite (u32 pid) (u8 1)) <$> pids.
Proof.
  revert s. induction pids as [|pid pids IH]; intros s; [done|].
  cbn [for_each]. rewrite bind_trace. simpl. now rewrite IH.
Qed.

Lemma milestone_block_trace w :
  let enter := ListenerEnter "ACPI_DEVICE_OST" in
  (milestone_block w).1 = [enter; QmpExecute "cont"; ListenerExit]
  ∨ (milestone_block w).1 = [enter; QmpExecute "cont"; ListenerGet]
  ∨ (milestone_block w).1
    = [enter; QmpExecute "cont"; ListenerGet; QmpExecute "stop"; ListenerExit].
Proof.
  unfold milestone_block, with_, call, await.
  destruct (execute_error w 0); [by left|].
  destruct (milestone_fires w); [|by right; left].
  destruct (execute_error w 1); by right; right.
Qed.

(** Only [sys.exit] ends a program with [Exited], and [main] has none. *)
Lemma bind_exited_inv {A B} (m : prog A) (f : A → prog B) status :
  (m ≫= f).2 = Exited status →
  m.2 = Exited status ∨ ∃ a, m.2 = Returned a ∧ (f a).2 = Exited status.
Proof.
  rewrite bind_outcome. destruct (m.2) as [a|e|s|p]; try done.
  - intros H. right. exists a. split; [reflexivity | exact H].
  - intros [= ->]. left. reflexivity.
Qed.

Lemma for_each_not_exited {A S} (xs : list A) (body : S → A → prog S) s status :
  (∀ s a, (body s a).2 ≠ Exited status) →
  (for_each xs body s).2 ≠ Exited status.
Proof.
  intros Hbody. revert s. induction xs as [|a xs IH]; intros s; [done|].
  cbn [for_each]. intros [H|(s' & _ & H)]%bind_exited_inv.
  - now apply Hbody in H.
  - now apply IH in H.
Qed.

Lemma milestone_block_not_exited w status :
  (milestone_block w).2 ≠ Exited status.
Proof.
  unfold milestone_block, with_, call, await.
  destruct (execute_error w 0); [done|].
  destruct (milestone_fires w); [|done].
  now destruct (execute_error w 1).
Qed.

Lemma main_not_exited w qemu_pid status : (main w qemu_pid).2 ≠ Exited status.
Proof.
  unfold main. intros H.
  repeat match goal with
         | H : (_ ≫= _).2 = Exited _ |- _ =>
             apply bind_exited_inv in H as [H|(? & _ & H)]
         end;
    try (revert H; first
           [ apply milestone_block_not_exited
           | apply for_each_not_exited; intros ? ?;
             first [ done | now destruct a ] ]).
  all: try done.
  all: try (unfold call in H; simpl in H;
            match type of H with context [match ?x with _ => _ end] =>
              now destruct x end).
  unfold wait_socket in H. now destruct (socket_polls w).
Qed.

Lemma script_main w a0 qemu_pid :
  script w [a0; qemu_pid]
  = (Log (Text "helflo") :: (main w qemu_pid).1, (main w qemu_pid).2).
Proof.
  unfold script. generalize (main w qemu_pid). intros [t o].
  unfold mbind, prog_bind. simpl. now destruct o.
Qed.

End TraceFacts.

(** Closes [x ∉ t] and [x ≠ y] goals over explicit traces. *)
Ltac absent :=
  repeat first
    [ apply not_elem_of_nil
    | apply absent_bind; [|intros ? ?]
    | apply absent_for_each; intros ? ?
    | apply not_elem_of_app; split
    | rewrite write_target_trace
    | rewrite init_report_trace
    | rewrite emit_trace
    | rewrite call_trace
    | rewrite await_trace
    | rewrite lift_trace
    | apply not_elem_of_cons; split; [discriminate|]
    | apply wait_socket_absent; [intros ?; discriminate| discriminate ..]
    | apply milestone_block_absent
    | discriminate ].

(** ** Building the thread map, the reports and draining the counts *)
Section DrainFacts.

Lemma drain_step_unfold result key count :
  drain_step result (key, count)
  = match dict_get result (unpack key).1 with
    | None => Error (KeyError (IntKey (unpack key).1))
    | Some r =>
        Ok (dict_set result (unpack key).1
              (Report (vcpu r)
                 (dict_set (scheds r) (unpack key).2
                    (int_from_bytes_little count))))
    end.
Proof. reflexivity. Qed.

Lemma drain_step_keys result item result' :
  drain_step result item = Ok result' → dict_keys result' = dict_keys result.
Proof.
  destruct item as [key count]. rewrite drain_step_unfold.
  destruct (dict_get result (unpack key).1) as [r|] eqn:E; [|done].
  intros [= <-]. apply dict_keys_set_present, dict_get_is_Some. eauto.
Qed.

Lemma drain_keys items result result' :
  drain items result = Ok result' → dict_keys result' = dict_keys result.
Proof.
  revert result. induction items as [|item items IH]; intros result; simpl.
  - now intros [= ->].
  - destruct (drain_step result item) as [r1|] eqn:E; [|done].
    intros H. rewrite (IH _ H). now apply drain_step_keys in E.
Qed.

(** A key of an unknown thread stops the loop with [KeyError]. *)
Lemma drain_unknown items result :
  Exists (λ item, (unpack item.1).1 ∉ dict_keys result) items →
  ∃ item, item ∈ items ∧ ((unpack item.1).1 ∉ dict_keys result)
          ∧ drain items result = Error (KeyError (IntKey (unpack item.1).1)).
Proof.
  revert result. induction items as [|[key count] items IH]; intros result Hex.
  - now apply Exists_nil in Hex.
  - cbn [drain]. rewrite drain_step_unfold.
    destruct (dict_get result (unpack key).1) as [r|] eqn:E.
    + apply Exists_cons in Hex as [Hhd|Htl].
      * exfalso. apply Hhd. apply dict_get_is_Some. cbn [fst snd]. eauto.
      * set (result1 := dict_set result _ _).
        assert (Hk : dict_keys result1 = dict_keys result).
        { apply dict_keys_set_present, dict_get_is_Some. eauto. }
        destruct (IH result1) as (item & Hin & Hout & Hdrain).
        { now rewrite Hk. }
        exists item. rewrite <- Hk. split; [now apply list_elem_of_further|].
        done.
    + exists (key, count). split; [apply list_elem_of_here|].
      split; [|done]. now apply dict_get_None.
Qed.

Lemma drain_known items result :
  Forall (λ item, (unpack item.1).1 ∈ dict_keys result) items →
  ∃ result', drain items result = Ok result'.
Proof.
  revert result. induction items as [|[key count] items IH]; intros result Hall.
  - by eexists.
  - apply Forall_cons in Hall as [Hhd Htl]. cbn [drain].
    rewrite drain_step_unfold.
    apply dict_get_is_Some in Hhd as [r Hr]. cbn [fst snd] in Hr. rewrite Hr.
    apply IH. eapply Forall_impl; [exact Htl|]. intros item Hin. cbn beta in *.
    rewrite dict_keys_set_present; [done|]. apply dict_get_is_Some. eauto.
Qed.

(** What the loop leaves under each thread. *)
Lemma drain_report items result result' tid r :
  drain items result = Ok result' →
  dict_get result tid = Some r →
  dict_get result' tid
  = Some (Report (vcpu r) (scheds_of tid items (scheds r))).
Proof.
  revert result r. induction items as [|[key count] items IH]; intros result r.
  - simpl. intros [= <-] ->. now destruct r.
  - cbn [drain]. rewrite drain_step_unfold.
    destruct (dict_get result (unpack key).1) as [r0|] eqn:E; [|done].
    intros Hdrain Hget. unfold scheds_of. cbn [foldl fst snd].
    destruct (decide ((unpack key).1 = tid)) as [Heq|Hne].
    + rewrite Heq in *. rewrite Hget in E. injection E as <-.
      rewrite (IH _ _ Hdrain (dict_get_set_eq _ _ _)). reflexivity.
    + rewrite (IH _ r Hdrain); [done|].
      rewrite dict_get_set_ne by done. exact Hget.
Qed.


Lemma scheds_of_other tid items scheds cpu :
  Forall (λ item, unpack item.1 ≠ (tid, cpu)) items →
  dict_get (scheds_of tid items scheds) cpu = dict_get scheds cpu.
Proof.
  unfold scheds_of. revert scheds.
  induction items as [|item items IH]; intros scheds Hall; [done|].
  apply Forall_cons in Hall as [Hhd Htl]. cbn [foldl].
  destruct (decide ((unpack item.1).1 = tid)) as [Heq|Hne];
    rewrite IH by done; [|done].
  apply dict_get_set_ne. intros Hcpu. apply Hhd.
  destruct (unpack item.1). cbn [fst snd] in *. congruence.
Qed.

Lemma scheds_of_recorded tid items scheds key count :
  NoDup (unpack <$> items.*1) →
  (key, count) ∈ items →
  (unpack key).1 = tid →
  dict_get (scheds_of tid items scheds) (unpack key).2
  = Some (int_from_bytes_little count).
Proof.
  revert scheds. induction items as [|item items IH]; intros scheds Hnd Hin Htid.
  - now apply elem_of_nil in Hin.
  - cbn [fmap list_fmap] in Hnd. apply NoDup_cons in Hnd as [Hfresh Hnd].
    apply elem_of_cons in Hin as [<-|Hin].
    + unfold scheds_of. cbn [foldl fst snd]. rewrite decide_True by done.
      fold (scheds_of tid items
              (dict_set scheds (unpack key).2 (int_from_bytes_little count))).
      rewrite scheds_of_other; [apply dict_get_set_eq|].
      apply Forall_forall. intros item Hitem Heq. apply Hfresh.
      apply list_elem_of_fmap. exists item.1. split.
      * rewrite Heq, <- Htid. cbn [fst]. now destruct (unpack key).
      * now apply list_elem_of_fmap_2.
    + unfold scheds_of. cbn [foldl].
      destruct (decide ((unpack item.1).1 = tid)); now apply IH.
Qed.

End DrainFacts.

(** ** Correlating threads and arming the probe *)
Section SetupFacts.












End SetupFacts.

(** ** The artifact of a run *)
Section ArtifactFacts.

#[local] Instance str_inj : Inj (=) (=) str.
Proof. unfold str. apply _. Qed.






End ArtifactFacts.

(** ** The trace window *)

(** C10.  In every run, for every argument list, [query-cpus-fast] is
    issued only while the guest is paused: the last command before it that
    changes the guest's execution state is [stop], which has returned, and
    no [cont] lies in between. *)
Theorem query_only_while_paused (w : world) (argv : list string) :
  always_before (QmpExecute "query-cpus-fast")
    (λ pre, guest_state pre = GuestPaused) (script w argv).1.
Proof.
  unfold script.
  destruct argv as [|a0 [|qemu_pid [|? ?]]]; try apply always_before_nil.
  apply always_before_bind; [apply always_before_absent; absent|]. intros _ _.
  unfold main.
  apply always_before_bind; [apply always_before_absent; absent|]; intros ? ?.
  apply always_before_bind; [apply always_before_absent; absent|]; intros ? ?.
  apply always_before_bind; [apply always_before_absent; absent|]; intros ? ?.
  apply always_before_bind; [apply always_before_absent; absent|].
  intros ? Hblock.
  apply always_before_bind.
  - apply always_before_cons; [|apply always_before_nil]. intros _.
    rewrite (milestone_block_returned _ _ Hblock), app_nil_r, !app_assoc.
    apply guest_paused_after_block.
  - intros ? ?. apply always_before_absent. absent.
Qed.

(** The query is really issued: the property above is not empty. *)
Example query_is_issued :
  QmpExecute "query-cpus-fast"
  ∈ (script sample_world ["trace_vcpu_sched.py"; "4242"]).1.
Proof. vm_compute. do 12 apply list_elem_of_further. apply list_elem_of_here. Qed.

(** C1, as stated, fails: in the sample run the first [cont] (line 52,
    Idle → Resumed) is issued when the probe is not yet loaded; the thread
    IDs the filter needs are only known from the query that follows the
    [stop]. *)
Lemma resume_precedes_probe_counterexample :
  ¬ always_before (QmpExecute "cont") (probe_ready sample_world)
      (script sample_world ["trace_vcpu_sched.py"; "4242"]).1.
Proof.
  intros H.
  destruct (H [Log (Text "helflo"); Log (Text "waiting qemu_pid:4242");
               PathExists "/tmp/4242.socket" false; Log (Text "waiting");
               Sleep 1; PathExists "/tmp/4242.socket" true;
               QmpConnect "/tmp/4242.socket";
               ListenerEnter "ACPI_DEVICE_OST"]
              (skipn 9 (script sample_world ["trace_vcpu_sched.py"; "4242"]).1)
              eq_refl) as [Hin _].
  repeat (apply elem_of_cons in Hin as [Hin|Hin]; [discriminate|]).
  now apply elem_of_nil in Hin.
Qed.

(** C1, amended.  In every run, a [cont] issued after the [stop] (line 78,
    the one that opens the trace window) is issued only after the probe is
    loaded and every thread ID of the reply has been written into
    [target_pids]; a [cont] issued before any [stop] (line 52) is issued
    before the probe is loaded. *)
Theorem resume_after_stop_has_probe_ready (w : world) (argv : list string) :
  always_before (QmpExecute "cont") (window_rule w) (script w argv).1.
Proof.
  unfold script.
  destruct argv as [|a0 [|qemu_pid [|? ?]]]; try apply always_before_nil.
  apply always_before_bind; [apply always_before_absent; absent|]. intros _ _.
  unfold main.
  apply always_before_bind; [apply always_before_absent; absent|]; intros ? _.
  apply always_before_bind; [apply always_before_absent; absent|]; intros ? _.
  apply always_before_bind; [apply always_before_absent; absent|]; intros ? _.
  apply always_before_bind.
  { assert (Hfirst : window_rule w
      ((emit (Log (Text "helflo"))).1 ++
       (emit (Log (Text ("waiting qemu_pid:" +:+ qemu_pid)))).1 ++
       (wait_socket ("/tmp/" +:+ qemu_pid +:+ ".socket") (socket_polls w)).1 ++
       (call (QmpConnect ("/tmp/" +:+ qemu_pid +:+ ".socket")) (connect_error w)).1 ++
       [ListenerEnter "ACPI_DEVICE_OST"])).
    { split; [intros _; absent|]. intros Hin. exfalso. revert Hin. absent. }
    destruct (milestone_block_trace w) as [E|[E|E]]; rewrite E;
      (apply always_before_cons; [discriminate|]);
      (apply always_before_cons; [intros _; exact Hfirst|]);
      apply always_before_absent; absent. }
  intros ? Hblock. apply milestone_block_returned in Hblock.
  apply always_before_bind; [apply always_before_absent; absent|]; intros ? _.
  apply always_before_bind; [apply always_before_absent; absent|]; intros ? _.
  apply always_before_bind; [apply always_before_absent; absent|].
  intros thread_map Hmap. apply lift_returned in Hmap.
  apply always_before_bind; [apply always_before_absent; absent|]; intros ? _.
  apply always_before_bind; [apply always_before_absent; absent|]; intros s _.
  apply always_before_bind; [apply always_before_absent; absent|]; intros result0 _.
  apply always_before_bind; [apply always_before_absent; absent|]; intros ? _.
  apply always_before_bind; [|intros ? _; apply always_before_absent; absent].
  apply always_before_cons; [|apply always_before_nil]. intros _.
  rewrite Hblock, write_targets_trace.
  split; [intros Hno; exfalso; apply Hno|intros _; split].
  - rewrite !elem_of_app. do 4 right. left.
    do 3 apply list_elem_of_further. apply list_elem_of_here.
  - rewrite !elem_of_app. do 8 right. left. apply list_elem_of_here.
  - intros tm tid Hb Hin. rewrite Hmap in Hb. injection Hb as <-.
    rewrite !elem_of_app. do 9 right. left.
    now apply (list_elem_of_fmap_2 (λ pid, TargetWrite (u32 pid) (u8 1))).
Qed.

(** ** The command line *)

(** C7, as stated, fails for a malformed argument: with ["abc"], on which
    [int] raises, the program is not stopped at the start; it logs, waits
    for the socket, connects and steers the guest. *)
Lemma malformed_argument_counterexample :
  int malformed_world "abc" = Error (ValueError "abc")
  ∧ ¬ rejected_at_start (script malformed_world ["trace_vcpu_sched.py"; "abc"]).
Proof.
  split; [reflexivity|]. intros [Hnil _]. discriminate Hnil.
Qed.

(** C7, amended.  When the number of command-line arguments is not exactly
    one (the argument is missing, or there are more), the program exits with
    status 1 and does nothing else.  A single argument is not examined at
    the start, whatever it is: the program logs and tests for the socket
    named after it.  When [int(qemu_pid)] raises [ValueError] on the
    argument, no run opens or writes a file and no run ends with status 0. *)
Theorem argument_check (w : world) (argv : list string) :
  (length argv ≠ 2%nat → script w argv = ([], Exited 1))
  ∧ (∀ a0 qemu_pid, argv = [a0; qemu_pid] →
       ∃ answer rest,
         (script w argv).1
         = [Log (Text "helflo"); Log (Text ("waiting qemu_pid:" +:+ qemu_pid));
            PathExists ("/tmp/" +:+ qemu_pid +:+ ".socket") answer] ++ rest)
  ∧ (∀ a0 qemu_pid e, argv = [a0; qemu_pid] → int w qemu_pid = Error e →
       (∀ path, OpenFile path ∉ (script w argv).1)
       ∧ (∀ doc, JsonDump doc ∉ (script w argv).1)
       ∧ exit_status (script w argv).2 ≠ Some 0).
Proof.
  split; [|split].
  - intros Hlen. destruct argv as [|a0 [|q [|? ?]]]; try done.
  - intros a0 q ->. rewrite script_main. unfold main.
    rewrite !bind_trace. cbn [fst snd emit app].
    unfold wait_socket. destruct (socket_polls w) as [[|n]|]; by eexists _, _.
  - intros a0 q e -> Hint.
    assert (Hstop : ∀ pid, (lift (int w q)).2 ≠ Returned pid).
    { intros pid Hret. apply lift_returned in Hret. congruence. }
    split; [|split].
    + intros path. unfold script, main. absent.
      all: try match goal with H : (lift (int _ _)).2 = Returned _ |- _ =>
                 now apply Hstop in H end.
    + intros doc. unfold script, main. absent.
      all: try match goal with H : (lift (int _ _)).2 = Returned _ |- _ =>
                 now apply Hstop in H end.
    + rewrite script_main. cbn [snd].
      destruct ((main w q).2) as [u|err|status|p] eqn:E;
        [| simpl; congruence | | simpl; congruence].
      * exfalso. unfold main in E.
        repeat match goal with
               | H : (_ ≫= _).2 = Returned _ |- _ =>
                   apply bind_returns_inv in H as (? & ? & H)
               end.
        match goal with H : (lift (int _ _)).2 = Returned _ |- _ =>
          now apply Hstop in H end.
      * now apply main_not_exited in E.
Qed.

Lemma argument_check_witness :
  script malformed_world ["trace_vcpu_sched.py"] = ([], Exited 1)
  ∧ exit_status (script malformed_world ["trace_vcpu_sched.py"; "abc"]).2
    ≠ Some 0.
Proof.
  destruct (argument_check malformed_world ["trace_vcpu_sched.py"]) as [H1 _].
  destruct (argument_check malformed_world ["trace_vcpu_sched.py"; "abc"])
    as (_ & _ & H3).
  split.
  - apply H1. simpl. lia.
  - apply (H3 "trace_vcpu_sched.py" "abc" (ValueError "abc") eq_refl eq_refl).
Defined.

(** ** Draining and the artifact *)

(** C6.  For every sequence of drained (key, count) buffers and every
    table of reports: if some key unpacks to a thread ID that is not a key
    of the table, the loop stops with [KeyError] carrying that thread ID
    (Python's form of the unknown-thread error; nothing is dropped in
    silence); otherwise the loop returns, keeps the table's threads, and,
    the keys being distinct as in a hash table, every count is found in the
    report of its thread under its CPU. *)
Theorem drain_surfaces_unknown_thread
    (items : list (list byte * list byte)) (result : list (Z * report)) :
  (Exists (λ item, (unpack item.1).1 ∉ dict_keys result) items →
   ∃ item, item ∈ items ∧ ((unpack item.1).1 ∉ dict_keys result)
           ∧ drain items result = Error (KeyError (IntKey (unpack item.1).1)))
  ∧ (Forall (λ item, (unpack item.1).1 ∈ dict_keys result) items →
     ∃ result',
       drain items result = Ok result'
       ∧ dict_keys result' = dict_keys result
       ∧ (NoDup (unpack <$> items.*1) →
          ∀ key count, (key, count) ∈ items →
            ∃ r, dict_get result' (unpack key).1 = Some r
                 ∧ dict_get (scheds r) (unpack key).2
                   = Some (int_from_bytes_little count))).
Proof.
  split; [apply drain_unknown|].
  intros Hall. destruct (drain_known items result Hall) as [result' Hdrain].
  exists result'. split; [exact Hdrain|].
  split; [exact (drain_keys _ _ _ Hdrain)|].
  intros Hnd key count Hin.
  pose proof (proj1 (Forall_forall _ _) Hall _ Hin) as Hkey. cbn [fst] in Hkey.
  apply dict_get_is_Some in Hkey as [r Hr].
  rewrite (drain_report _ _ _ _ _ Hdrain Hr). eexists. split; [reflexivity|].
  cbn [scheds]. now apply scheds_of_recorded.
Qed.

Lemma drain_surfaces_unknown_thread_witness :
  drain [(u64_buffer (make_key 7 0), u64_buffer 5)] [(1001, Report 0 [])]
  = Error (KeyError (IntKey 7))
  ∧ ∃ result',
      drain [(u64_buffer (make_key 1001 2), u64_buffer 5)] [(1001, Report 0 [])]
      = Ok result'.
Proof.
  split.
  - destruct (drain_surfaces_unknown_thread
                [(u64_buffer (make_key 7 0), u64_buffer 5)]
                [(1001, Report 0 [])]) as [H _].
    destruct H as (item & Hin & _ & Hdrain).
    + apply Exists_cons_hd. vm_compute. intros Hin.
      apply list_elem_of_singleton in Hin. discriminate Hin.
    + apply list_elem_of_singleton in Hin. subst item. exact Hdrain.
  - destruct (drain_surfaces_unknown_thread
                [(u64_buffer (make_key 1001 2), u64_buffer 5)]
                [(1001, Report 0 [])]) as [_ H].
    destruct H as (result' & Hdrain & _).
    + apply Forall_cons. split; [|apply Forall_nil_2].
      vm_compute. apply list_elem_of_here.
    + exists result'. exact Hdrain.
Defined.






(** ** The report script *)

(** C8: the code breaks it.  The tracer writes
    [{"1001": {"vcpu": 0, "scheds": {}}}] for a thread that was never
    switched in; [json.load] reads it back, and [analyze_thread_data] then
    raises [KeyError('0')] at [scheds["0"]] (line 44), before any percentage
    is computed.  The guard of line 150 does give 0 for a zero total, but it
    is never reached for a report without a ["0"] entry. *)
Theorem total_scheds_raises_on_empty_report :
  ∃ data,
    Analysis.load_json_data (result_json [(1001, Report 0 [])]) = Some data
    ∧ data = [("1001", Analysis.ThreadInfo (Some 0) (Some []))]
    ∧ Analysis.analyze_thread_data
        [Analysis.TraceFile "trace_vcpu_sched-4242-1700000000.5" data]
      = Error (KeyError (StrKey "0"))
    ∧ ∀ count, Qeq (Analysis.percentage count 0) (inject_Z 0).
Proof.
  eexists. split; [vm_compute; reflexivity|]. split; [reflexivity|].
  split; [vm_compute; reflexivity|]. intros count. reflexivity.
Qed.

(** ** The probe as shipped *)

(** C3: the code breaks it.  The handler text sets out to do what the
    claim says (lines 27-33), but line 35 leaves a bare [for] before the
    closing brace, so the text does not compile and [BPF(text=ptext)]
    raises on line 62.  In every such run, whatever the arguments, no
    thread ID is written into the filter, the counters are never read,
    nothing is dumped, and the program does not return. *)
Theorem probe_never_attached (w : world) (argv : list string) :
  shipped w →
  (∀ key val, TargetWrite key val ∉ (script w argv).1)
  ∧ (CountItems ∉ (script w argv).1)
  ∧ (∀ doc, JsonDump doc ∉ (script w argv).1)
  ∧ (∀ u, (script w argv).2 ≠ Returned u).
Proof.
  intros [e He].
  assert (Hstop : ∀ u, (call BpfLoad (bpf_error w)).2 ≠ Returned u).
  { intros u Hret. apply call_returned in Hret. congruence. }
  destruct argv as [|a0 [|q [|? ?]]];
    try (repeat split; [intros ? ?| |intros ?|intros ?]; simpl;
         solve [apply not_elem_of_nil | discriminate]).
  split; [|split; [|split]].
  - intros key val. unfold script, main. absent.
    all: try match goal with H : (call BpfLoad _).2 = Returned _ |- _ =>
               now apply Hstop in H end.
  - unfold script, main. absent.
    all: try match goal with H : (call BpfLoad _).2 = Returned _ |- _ =>
               now apply Hstop in H end.
  - intros doc. unfold script, main. absent.
    all: try match goal with H : (call BpfLoad _).2 = Returned _ |- _ =>
               now apply Hstop in H end.
  - intros u. rewrite script_main. cbn [snd]. unfold main. intros E.
    repeat match goal with
           | H : (_ ≫= _).2 = Returned _ |- _ =>
               apply bind_returns_inv in H as (? & ? & H)
           end.
    match goal with H : (call BpfLoad _).2 = Returned _ |- _ =>
      now apply Hstop in H end.
Qed.

Lemma probe_never_attached_witness :
  shipped shipped_world
  ∧ (script shipped_world ["trace_vcpu_sched.py"; "4242"]).2
    = Raised (LibraryError "BPF: failed to compile BPF module")
  ∧ guest_state (script shipped_world ["trace_vcpu_sched.py"; "4242"]).1
    = GuestPaused
  ∧ (CountItems ∉ (script shipped_world ["trace_vcpu_sched.py"; "4242"]).1).
Proof.
  assert (H : shipped shipped_world) by (unfold shipped; simpl; eauto).
  split; [exact H|]. split; [reflexivity|]. split; [reflexivity|].
  destruct (probe_never_attached shipped_world
              ["trace_vcpu_sched.py"; "4242"] H) as (_ & Hcount & _).
  exact Hcount.
Defined.

